(** * Saleor: catalog query layer and payment vocabulary

    A shallow embedding of [saleor/graphql/product/types.py] (the resolvers
    and the request-scoped ancestor cache) and of
    [saleor/payment/__init__.py] (the payment vocabulary), followed by the
    properties proved about them.

    Conventions.
    - A database table is a list of rows, in storage order; a primary key
      is a [Z].
    - A Python [dict] is a [gmap]; a Python [set] is a [gset].
    - A call that may raise returns a [result]; Python's [None] is [None]
      of an [option].
    - The request context is threaded explicitly: a resolver that calls
      [setattr] on it returns the new context next to its value. *)

From Stdlib Require Import ZArith.
From stdpp Require Import gmap strings list fin_maps sorting.

(* ===================================================================== *)
(** * Payment vocabulary ([saleor/payment/__init__.py])                  *)
(* ===================================================================== *)

(** [class TransactionError(Enum)]: the members, in definition order. *)
Inductive TransactionError : Set :=
  | INCORRECT_NUMBER
  | INVALID_NUMBER
  | INCORRECT_CVV
  | INVALID_CVV
  | INCORRECT_ZIP
  | INCORRECT_ADDRESS
  | INVALID_EXPIRY_DATE
  | EXPIRED
  | PROCESSING_ERROR
  | DECLINED.

#[global] Instance TransactionError_eq_dec : EqDecision TransactionError.
Proof. solve_decision. Defined.

(** The [.value] of a member. *)
Definition TransactionError_value (e : TransactionError) : string :=
  match e with
  | INCORRECT_NUMBER => "incorrect_number"
  | INVALID_NUMBER => "invalid_number"
  | INCORRECT_CVV => "incorrect_cvv"
  | INVALID_CVV => "invalid_cvv"
  | INCORRECT_ZIP => "incorrect_zip"
  | INCORRECT_ADDRESS => "incorrect_address"
  | INVALID_EXPIRY_DATE => "invalid_expiry_date"
  | EXPIRED => "expired"
  | PROCESSING_ERROR => "processing_error"
  | DECLINED => "declined"
  end.

(** [list(TransactionError)]: iteration over the enumeration. *)
Definition TransactionError_members : list TransactionError :=
  [ INCORRECT_NUMBER; INVALID_NUMBER; INCORRECT_CVV; INVALID_CVV;
    INCORRECT_ZIP; INCORRECT_ADDRESS; INVALID_EXPIRY_DATE; EXPIRED;
    PROCESSING_ERROR; DECLINED ].

(** [class TransactionKind]: string constants and the [CHOICES] list. *)
Module TransactionKind.

Definition AUTH : string := "auth".
Definition CAPTURE : string := "capture".
Definition VOID : string := "void".
Definition REFUND : string := "refund".
Definition CONFIRM : string := "confirm".

Definition CHOICES : list (string * string) :=
  [ (AUTH, "Authorization");
    (REFUND, "Refund");
    (CAPTURE, "Capture");
    (VOID, "Void");
    (CONFIRM, "Confirm") ].

(** The value attributes of the class, in definition order. *)
Definition values : list string := [AUTH; CAPTURE; VOID; REFUND; CONFIRM].

End TransactionKind.

(** [class ChargeStatus]: string constants and the [CHOICES] list. *)
Module ChargeStatus.

Definition NOT_CHARGED : string := "not-charged".
Definition PARTIALLY_CHARGED : string := "partially-charged".
Definition FULLY_CHARGED : string := "fully-charged".
Definition PARTIALLY_REFUNDED : string := "partially-refunded".
Definition FULLY_REFUNDED : string := "fully-refunded".

Definition CHOICES : list (string * string) :=
  [ (NOT_CHARGED, "Not charged");
    (PARTIALLY_CHARGED, "Partially charged");
    (FULLY_CHARGED, "Fully charged");
    (PARTIALLY_REFUNDED, "Partially refunded");
    (FULLY_REFUNDED, "Fully refunded") ].

(** The value attributes of the class, in definition order. *)
Definition values : list string :=
  [ NOT_CHARGED; PARTIALLY_CHARGED; FULLY_CHARGED;
    PARTIALLY_REFUNDED; FULLY_REFUNDED ].

End ChargeStatus.

(* ===================================================================== *)
(** * Outcomes of a call                                                 *)
(* ===================================================================== *)

(** The exceptions of the object mapper that the resolvers can meet. *)
Inductive exn : Set :=
  | DoesNotExist
  | MultipleObjectsReturned.

(** A call either returns a value or raises. *)
Inductive result (A : Type) : Type :=
  | Returns (a : A)
  | Raises (e : exn).
Arguments Returns {A} a.
Arguments Raises {A} e.

#[global] Instance result_ret : MRet result := λ A a, Returns a.
#[global] Instance result_bind : MBind result := λ A B k m,
  match m with
  | Returns a => k a
  | Raises e => Raises e
  end.

(* ===================================================================== *)
(** * The catalog store                                                  *)
(* ===================================================================== *)

(** Modelled from the spec: the model classes of [saleor/product/models.py]
    are not part of the sources at hand.  A category is a node of a tree
    (identifier, name, parent); a product belongs to one category and one
    product type; an attribute belongs to zero or more product types, along
    two association paths. *)
Record Category : Set := mkCategory {
  category_id : Z;
  category_name : string;
  category_parent : option Z
}.

Record Product : Set := mkProduct {
  product_id : Z;
  product_name : string;
  product_category : Z;
  product_type_id : Z
}.

Record ProductAttribute : Set := mkProductAttribute {
  attribute_id : Z;
  attribute_name : string
}.

#[global] Instance Category_eq_dec : EqDecision Category.
Proof. solve_decision. Defined.
#[global] Instance Product_eq_dec : EqDecision Product.
Proof. solve_decision. Defined.
#[global] Instance ProductAttribute_eq_dec : EqDecision ProductAttribute.
Proof. solve_decision. Defined.

(** A row of a many-to-many link table: (product type, attribute). *)
Definition Link : Set := (Z * Z)%type.
Definition link_product_type (l : Link) : Z := l.1.
Definition link_attribute (l : Link) : Z := l.2.

(** The tables behind [models.Category], [models.Product],
    [models.ProductAttribute], and the two link tables behind the
    relations [product_types] and [product_variant_types] of an
    attribute. *)
Record Database : Set := mkDatabase {
  Category_objects : list Category;
  Product_objects : list Product;
  ProductAttribute_objects : list ProductAttribute;
  product_types_links : list Link;
  product_variant_types_links : list Link
}.

(** Primary keys are unique and, being drawn from a sequence, positive. *)
Definition valid_pks (pks : list Z) : Prop :=
  NoDup pks ∧ Forall (λ k, (0 < k)%Z) pks.

#[global] Instance valid_pks_dec pks : Decision (valid_pks pks).
Proof. unfold valid_pks. apply _. Defined.

(* ===================================================================== *)
(** * Queries of the object mapper                                       *)
(* ===================================================================== *)

Section Queries.
Context {A : Type} (pk : A → Z).

(** [qs.filter(id=k)]. *)
Definition filter_pk (k : Z) (qs : list A) : list A :=
  filter (λ row, pk row = k) qs.

(** [Model.objects.get(pk=k)]: the one matching row; raises when there
    is none, or more than one. *)
Definition objects_get (k : Z) (qs : list A) : result A :=
  match filter_pk k qs with
  | [] => Raises DoesNotExist
  | [row] => Returns row
  | _ :: _ :: _ => Raises MultipleObjectsReturned
  end.

(** The order of rows by primary key. *)
Definition pk_le (r1 r2 : A) : Prop := (pk r1 ≤ pk r2)%Z.

#[global] Instance pk_le_dec : RelDecision pk_le.
Proof. intros r1 r2. unfold pk_le. apply _. Defined.

(** [qs.first()]: the first row of the query set ordered by primary key
    (the query sets here carry no ordering of their own), or [None]. *)
Definition first (qs : list A) : option A :=
  head (merge_sort pk_le qs).

(** Following a foreign key: the row a key refers to, if any. *)
Definition related (k : Z) (qs : list A) : option A :=
  head (filter_pk k qs).
End Queries.

(** [qs.prefetch_related(...)]: a hint on how the related rows are
    fetched; the rows of the query set are the same. *)
Definition prefetch_related {A : Type} (lookups : list string)
    (qs : list A) : list A := qs.

(** [qs.distinct()]: duplicate rows are dropped. *)
Definition distinct {A : Type} `{EqDecision A} (qs : list A) : list A :=
  remove_dups qs.

(** A left outer join on equal keys: every row of [l] is paired with each
    row of [r] that has its key, or once with [None] when no row of [r]
    has it. *)
Definition left_outer_join {A B : Type} (key_l : A → Z) (key_r : B → Z)
    (l : list A) (r : list B) : list (A * option B) :=
  a ← l;
  match filter (λ b, key_r b = key_l a) r with
  | [] => [(a, None)]
  | matches => (λ b, (a, Some b)) <$> matches
  end.

(* ===================================================================== *)
(** * The category tree                                                  *)
(* ===================================================================== *)

(** The chain of parents of [c], nearest first.  The walk stops at a root,
    at a dangling parent key, or when the fuel is spent. *)
Fixpoint parents_up (fuel : nat) (tbl : list Category) (c : Category)
    : list Category :=
  match fuel with
  | O => []
  | S fuel' =>
      match category_parent c with
      | None => []
      | Some k =>
          match related category_id k tbl with
          | None => []
          | Some p => p :: parents_up fuel' tbl p
          end
      end
  end.

(** [category.get_ancestors()]: the direct, uncached traversal; from the
    root down to the parent of [c], [c] excluded.  A chain of parents in a
    tree of [length tbl] nodes has fewer than [length tbl] members. *)
Definition get_ancestors (tbl : list Category) (c : Category)
    : list Category :=
  reverse (parents_up (length tbl) tbl c).

(** [category.get_descendants(include_self=...)]: the rows that have [c]
    among their ancestors, and [c] itself when asked for. *)
Definition get_descendants (include_self : bool) (tbl : list Category)
    (c : Category) : list Category :=
  filter (λ d, (include_self = true ∧ category_id d = category_id c)
               ∨ category_id c ∈ category_id <$> get_ancestors tbl d) tbl.

(** [qs.get_cached_trees()]: the top-level nodes of the query set.  The
    query sets it is applied to here are restricted to one primary key, so
    every row of the query set is a top-level node. *)
Definition get_cached_trees (qs : list Category) : list Category := qs.

(** [p] is the row the parent key of [c] refers to. *)
Definition parent_of (tbl : list Category) (c p : Category) : Prop :=
  ∃ k, category_parent c = Some k ∧ related category_id k tbl = Some p.

(** [a] is a proper ancestor of [c]: its parent, or an ancestor of its
    parent. *)
Inductive ancestor_of (tbl : list Category) : Category → Category → Prop :=
  | ancestor_parent c p :
      parent_of tbl c p → ancestor_of tbl c p
  | ancestor_step c p a :
      parent_of tbl c p → ancestor_of tbl p a → ancestor_of tbl c a.

(** The invariant of the category tree: no category is its own ancestor. *)
Definition acyclic (tbl : list Category) : Prop :=
  ∀ c, ¬ ancestor_of tbl c c.

(* ===================================================================== *)
(** * The ancestor cache                                                 *)
(* ===================================================================== *)

(** Modelled from the spec: the class [CategoryAncestorsCache] of
    [saleor/graphql/utils.py] is not part of the sources at hand.  The
    cache is a mapping from a category to the ordered sequence of its
    ancestors, built for every node of the subtree of the category it is
    created for (that category included).  A category is hashed and
    compared by primary key. *)
Record CategoryAncestorsCache : Set := mkCategoryAncestorsCache {
  cache_entries : gmap Z (list Category)
}.

#[global] Instance CategoryAncestorsCache_eq_dec :
  EqDecision CategoryAncestorsCache.
Proof. solve_decision. Defined.

#[global] Instance CategoryAncestorsCache_inhabited :
  Inhabited CategoryAncestorsCache := populate (mkCategoryAncestorsCache ∅).

(** Modelled from the spec: [CategoryAncestorsCache(category)]. *)
Definition CategoryAncestorsCache_init (tbl : list Category)
    (category : Category) : CategoryAncestorsCache :=
  mkCategoryAncestorsCache
    (list_to_map
       ((λ d, (category_id d, get_ancestors tbl d))
          <$> get_descendants true tbl category)).

(** Modelled from the spec: [cache.get(category)].  The cached sequence
    when the mapping holds the category; for a category the mapping does
    not hold, the direct (uncached) traversal of the backing store. *)
Definition CategoryAncestorsCache_get (tbl : list Category)
    (self : CategoryAncestorsCache) (category : Category)
    : option (list Category) :=
  match cache_entries self !! category_id category with
  | Some ancestors => Some ancestors
  | None => Some (get_ancestors tbl category)
  end.

(* ===================================================================== *)
(** * The request context                                                *)
(* ===================================================================== *)

Definition CONTEXT_CACHE_NAME : string := "__cache__".
Definition CACHE_ANCESTORS : string := "ancestors".

(** The request object: its user, and the attributes attached to it at
    run time, by name.  The only values attached by this module are
    dictionaries from a cache name to an ancestor cache. *)
Record RequestContext (User : Type) : Type := mkRequestContext {
  user : User;
  attributes : gmap string (gmap string CategoryAncestorsCache)
}.
Arguments mkRequestContext {User} user attributes.
Arguments user {User} r.
Arguments attributes {User} r.

(** [getattr(context, name, None)]. *)
Definition getattr {User : Type} (context : RequestContext User)
    (name : string) : option (gmap string CategoryAncestorsCache) :=
  attributes context !! name.

(** [setattr(context, name, value)]. *)
Definition setattr {User : Type} (context : RequestContext User)
    (name : string) (value : gmap string CategoryAncestorsCache)
    : RequestContext User :=
  mkRequestContext (user context) (<[name := value]> (attributes context)).

(** Truth value of a dictionary: the empty dictionary is false. *)
Definition dict_truthy {V : Type} `{EqDecision V} (d : gmap string V)
    : bool :=
  negb (bool_decide (d = ∅)).

(** Truth value of a string: the empty string is false. *)
Definition str_truthy (s : string) : bool :=
  negb (bool_decide (s = ""%string)).

(** Truth value of an integer: zero is false. *)
Definition int_truthy (k : Z) : bool :=
  negb (bool_decide (k = 0%Z)).

(* ===================================================================== *)
(** * The resolvers ([saleor/graphql/product/types.py])                  *)
(* ===================================================================== *)

(** [get_ancestors_from_cache(category, context)]. *)
Definition get_ancestors_from_cache {User : Type} (db : Database)
    (category : Category) (context : RequestContext User)
    : option (list Category) :=
  match getattr context CONTEXT_CACHE_NAME with
  | Some cache =>
      if dict_truthy cache && bool_decide (CACHE_ANCESTORS ∈ dom cache)
      then CategoryAncestorsCache_get (Category_objects db)
             (cache !!! CACHE_ANCESTORS) category
      else Some (get_ancestors (Category_objects db) category)
  | None => Some (get_ancestors (Category_objects db) category)
  end.

(** [Category.resolve_ancestors(self, info)]. *)
Definition resolve_ancestors {User : Type} (db : Database)
    (self : Category) (context : RequestContext User)
    : option (list Category) :=
  get_ancestors_from_cache db self context.

(** [resolve_category(id, info)]: the value returned, and the context as
    the call leaves it. *)
Definition resolve_category {User : Type} (db : Database) (id : Z)
    (context : RequestContext User)
    : option Category * RequestContext User :=
  let categories :=
    get_cached_trees (filter_pk category_id id (Category_objects db)) in
  match categories with
  | category :: _ =>
      let cache : gmap string CategoryAncestorsCache :=
        {[ CACHE_ANCESTORS :=
             CategoryAncestorsCache_init (Category_objects db) category ]} in
      (Some category, setattr context CONTEXT_CACHE_NAME cache)
  | [] => (None, context)
  end.

(** Whether a joined link row satisfies [..._types__in=product_types]; a
    missing link row does not. *)
Definition link_in (product_types : gset Z) (l : option Link) : Prop :=
  match l with
  | Some l => link_product_type l ∈ product_types
  | None => False
  end.

#[global] Instance link_in_dec product_types l :
  Decision (link_in product_types l).
Proof. destruct l; simpl; apply _. Defined.

(** [queryset.filter(Q(product_types__in=product_types) |
                     Q(product_variant_types__in=product_types))]:
    the attribute table joined with both link tables, the rows kept where
    either joined link is in the set, the attribute projected out. *)
Definition filter_product_types (db : Database) (product_types : gset Z)
    (queryset : list ProductAttribute) : list ProductAttribute :=
  let joined1 :=
    left_outer_join attribute_id link_attribute
      queryset (product_types_links db) in
  let joined2 :=
    left_outer_join (λ r, attribute_id r.1) link_attribute
      joined1 (product_variant_types_links db) in
  (λ r, r.1.1)
    <$> filter (λ r, link_in product_types r.1.2 ∨ link_in product_types r.2)
          joined2.

(** [resolve_attributes(category_pk)]. *)
Definition resolve_attributes (db : Database) (category_pk : option Z)
    : result (list ProductAttribute) :=
  let queryset := prefetch_related ["values"] (ProductAttribute_objects db) in
  queryset ←
    match category_pk with
    | Some pk =>
        if int_truthy pk then
          category ← objects_get category_id pk (Category_objects db);
          let tree := get_descendants true (Category_objects db) category in
          let product_types : gset Z :=
            list_to_set
              (product_type_id
                 <$> filter (λ p, product_category p ∈ category_id <$> tree)
                       (Product_objects db)) in
          mret (filter_product_types db product_types queryset)
        else mret queryset
    | None => mret queryset
    end;
  mret (distinct queryset).

Section Collaborators.
Context {User : Type}.

(** Modelled from the spec: [products_visible_to_user] of
    [saleor/product/utils.py] is not part of the sources at hand.  The
    visibility policy is an external rule that decides which products a
    requester may see; it is a parameter here. *)
Variable visible : User → Product → bool.

(** The thumbnail collaborator [product_first_image] (a template tag, not
    part of the sources at hand): from a product and a size to a URL. *)
Variable product_first_image : Product → string → string.

(** Modelled from the spec: the products the policy lets the user see. *)
Definition products_visible_to_user (db : Database) (u : User)
    : list Product :=
  filter (λ p, visible u p = true) (Product_objects db).

(** [Product.resolve_thumbnail_url(self, info, *, size=None)]. *)
Definition resolve_thumbnail_url (self : Product) (size : option string)
    : string :=
  let size :=
    match size with
    | Some s => if negb (str_truthy s) then "255x255"%string else s
    | None => "255x255"%string
    end in
  product_first_image self size.

(** [Category.resolve_products(self, info, **args)]. *)
Definition resolve_products (db : Database) (self : Category)
    (context : RequestContext User) : list Product :=
  let qs := products_visible_to_user db (user context) in
  let qs := prefetch_related ["images"; "category"; "variants__stock"] qs in
  let qs := filter (λ p, product_category p = category_id self) qs in
  qs.

(** [resolve_product(id, info)]. *)
Definition resolve_product (db : Database) (id : Z)
    (context : RequestContext User) : option Product :=
  let products :=
    filter_pk product_id id (products_visible_to_user db (user context)) in
  first product_id products.

End Collaborators.

(* ===================================================================== *)
(** * Notions used in the statements                                     *)
(* ===================================================================== *)

(** The ancestor cache a context carries, if it carries one: the entry
    [CACHE_ANCESTORS] of the dictionary attached as [CONTEXT_CACHE_NAME]. *)
Definition context_ancestors_cache {User : Type}
    (context : RequestContext User) : option CategoryAncestorsCache :=
  getattr context CONTEXT_CACHE_NAME ≫= λ cache, cache !! CACHE_ANCESTORS.

(** Whether the context carries an ancestor cache that holds [category]. *)
Definition cache_contains {User : Type} (context : RequestContext User)
    (category : Category) : bool :=
  match context_ancestors_cache context with
  | Some ac =>
      bool_decide (is_Some (cache_entries ac !! category_id category))
  | None => false
  end.

(** A product is in the subtree of a category when its category is the
    category itself or one of its descendants. *)
Definition in_subtree (db : Database) (c : Category) (p : Product) : Prop :=
  ∃ d, d ∈ get_descendants true (Category_objects db) c
       ∧ product_category p = category_id d.

(** The attribute is linked to the product type, along the product-type
    path or along the variant-type path. *)
Definition associated (db : Database) (t : Z) (a : ProductAttribute)
    : Prop :=
  (t, attribute_id a) ∈ product_types_links db
  ∨ (t, attribute_id a) ∈ product_variant_types_links db.

(** The attributes the spec asks of [resolve_attributes] for a category:
    those associated with a product type used by a product of the subtree. *)
Definition attribute_of_subtree (db : Database) (c : Category)
    (a : ProductAttribute) : Prop :=
  a ∈ ProductAttribute_objects db
  ∧ ∃ p, p ∈ Product_objects db ∧ in_subtree db c p
         ∧ associated db (product_type_id p) a.

(* ===================================================================== *)
(** * A small catalog, for the examples                                  *)
(* ===================================================================== *)

Definition Apparel : Category := mkCategory 1 "Apparel" None.
Definition Books : Category := mkCategory 2 "Books" None.
Definition Fiction : Category := mkCategory 3 "Fiction" (Some 2%Z).
Definition Crime : Category := mkCategory 4 "Crime" (Some 3%Z).
Definition Maps : Category := mkCategory 5 "Maps" (Some 2%Z).

Definition Novel : Product := mkProduct 10 "Novel" 4 100.
Definition Shirt : Product := mkProduct 11 "Shirt" 1 101.
Definition Poems : Product := mkProduct 12 "Poems" 3 100.

Definition author : ProductAttribute := mkProductAttribute 1000 "author".
Definition size : ProductAttribute := mkProductAttribute 1001 "size".
Definition cover : ProductAttribute := mkProductAttribute 1002 "cover".

Definition shop : Database :=
  mkDatabase
    [Apparel; Books; Fiction; Crime; Maps]
    [Novel; Shirt; Poems]
    [author; size; cover]
    [(100, 1000); (101, 1001); (100, 1002)]%Z
    [(100, 1002); (101, 1001)]%Z.

(** Requesters of the examples, and a policy that hides the shirt from
    customers. *)
Inductive Requester : Set := Staff | Customer.

Definition staff_sees_all (u : Requester) (p : Product) : bool :=
  match u with
  | Staff => true
  | Customer => negb (bool_decide (p = Shirt))
  end.

Definition fresh_context (u : Requester) : RequestContext Requester :=
  mkRequestContext u ∅.

(** The context of a staff request after [resolve_category] has resolved
    the category [Apparel]. *)
Definition context_after_Apparel : RequestContext Requester :=
  (resolve_category shop 1 (fresh_context Staff)).2.

Definition first_image_stub (p : Product) (size : string) : string :=
  ("/media/" +:+ product_name p +:+ "-" +:+ size +:+ ".jpg")%string.

(* ===================================================================== *)
(** * Further vocabulary and resolvers                                   *)
(* ===================================================================== *)

(** [class OperationType(Enum)] of [saleor/payment/__init__.py]: the
    members, in definition order, their [.value], and the iteration
    [list(OperationType)]. *)
Module OperationType.

Inductive t : Set :=
  | PROCESS_PAYMENT
  | AUTH
  | CAPTURE
  | VOID
  | REFUND
  | CONFIRM.

#[global] Instance t_eq_dec : EqDecision t.
Proof. solve_decision. Defined.

Definition value (o : t) : string :=
  match o with
  | PROCESS_PAYMENT => "process_payment"
  | AUTH => "authorize"
  | CAPTURE => "capture"
  | VOID => "void"
  | REFUND => "refund"
  | CONFIRM => "confirm"
  end.

Definition members : list t :=
  [ PROCESS_PAYMENT; AUTH; CAPTURE; VOID; REFUND; CONFIRM ].

End OperationType.

(** [class CustomPaymentChoices]. *)
Module CustomPaymentChoices.

Definition MANUAL : string := "manual".

Definition CHOICES : list (string * string) := [ (MANUAL, "Manual") ].

End CustomPaymentChoices.

(** [category.children.all()]: the rows whose parent key is the key of the
    category. *)
Definition children_all (tbl : list Category) (c : Category)
    : list Category :=
  filter (λ d, category_parent d = Some (category_id c)) tbl.

(** [category.get_siblings(include_self=...)]: the rows with the same
    parent key (the other roots, for a root), without the category itself
    unless asked for. *)
Definition get_siblings (include_self : bool) (tbl : list Category)
    (c : Category) : list Category :=
  filter (λ d, category_parent d = category_parent c
               ∧ (include_self = true ∨ category_id d ≠ category_id c)) tbl.

(** [Category.resolve_children(self, info)]. *)
Definition resolve_children (db : Database) (self : Category)
    : list Category :=
  children_all (Category_objects db) self.

(** [Category.resolve_siblings(self, info)]. *)
Definition resolve_siblings (db : Database) (self : Category)
    : list Category :=
  get_siblings false (Category_objects db) self.

(** [Category.resolve_products_count(self, info)]: [self.products.count()],
    the number of product rows whose category is [self]. *)
Definition resolve_products_count (db : Database) (self : Category) : nat :=
  length (filter (λ p, product_category p = category_id self)
            (Product_objects db)).

(** An image of a product: its key, its product, and the URL of the
    stored file ([self.image.url]). *)
Record ProductImage : Set := mkProductImage {
  image_id : Z;
  image_product : Z;
  image_url : string
}.

Section Images.

(** The cropping collaborator: [self.image.crop[size].url]. *)
Variable crop_url : ProductImage → string → string.

(** [ProductImage.resolve_url(self, info, *, size=None)]. *)
Definition ProductImage_resolve_url (self : ProductImage)
    (size : option string) : string :=
  match size with
  | Some s => if str_truthy s then crop_url self s else image_url self
  | None => image_url self
  end.

End Images.

(* ===================================================================== *)
(** * Lemmas on the queries                                              *)
(* ===================================================================== *)

Section QueryFacts.
Context {A : Type} (pk : A → Z).

Lemma elem_of_filter_pk (k : Z) (qs : list A) (row : A) :
  row ∈ filter_pk pk k qs ↔ pk row = k ∧ row ∈ qs.
Proof. unfold filter_pk. by rewrite list_elem_of_filter. Qed.

Lemma filter_pk_absent (k : Z) (qs : list A) :
  (∀ row, row ∈ qs → pk row ≠ k) → filter_pk pk k qs = [].
Proof.
  intros Hno. induction qs as [|r qs IH]; [done|].
  unfold filter_pk in *. rewrite filter_cons.
  destruct (decide (pk r = k)) as [Heq|_].
  - exfalso. apply (Hno r); [left | done].
  - apply IH. intros row Hin. apply Hno. by right.
Qed.

Lemma filter_pk_unique (qs : list A) (row : A) :
  NoDup (pk <$> qs) → row ∈ qs → filter_pk pk (pk row) qs = [row].
Proof.
  induction qs as [|r qs IH]; intros Hnd Hin; [by apply elem_of_nil in Hin|].
  rewrite fmap_cons in Hnd. apply NoDup_cons in Hnd as [Hfresh Hnd].
  unfold filter_pk in *. rewrite filter_cons.
  apply elem_of_cons in Hin as [->|Hin].
  - rewrite decide_True by done. f_equal.
    apply filter_pk_absent. intros r' Hr' Heq.
    apply Hfresh. rewrite <- Heq. by apply list_elem_of_fmap_2.
  - rewrite decide_False; [by apply IH|].
    intros Heq. apply Hfresh. rewrite Heq. by apply list_elem_of_fmap_2.
Qed.

Lemma objects_get_unique (qs : list A) (row : A) :
  NoDup (pk <$> qs) → row ∈ qs → objects_get pk (pk row) qs = Returns row.
Proof. intros Hnd Hin. unfold objects_get. by rewrite filter_pk_unique. Qed.

Lemma objects_get_absent (k : Z) (qs : list A) :
  (∀ row, row ∈ qs → pk row ≠ k) → objects_get pk k qs = Raises DoesNotExist.
Proof. intros Hno. unfold objects_get. by rewrite filter_pk_absent. Qed.

Lemma first_nil : first pk [] = None.
Proof. reflexivity. Qed.

End QueryFacts.

Lemma elem_of_distinct {A : Type} `{EqDecision A} (qs : list A) (x : A) :
  x ∈ distinct qs ↔ x ∈ qs.
Proof. unfold distinct. apply elem_of_remove_dups. Qed.

Lemma NoDup_distinct {A : Type} `{EqDecision A} (qs : list A) :
  NoDup (distinct qs).
Proof. unfold distinct. apply NoDup_remove_dups. Qed.

(** A row of the left side and what it is joined with. *)
Lemma elem_of_left_outer_join {A B : Type} (key_l : A → Z) (key_r : B → Z)
    (l : list A) (r : list B) (a : A) (o : option B) :
  (a, o) ∈ left_outer_join key_l key_r l r ↔
  a ∈ l ∧ match o with
          | Some b => b ∈ r ∧ key_r b = key_l a
          | None => ∀ b, b ∈ r → key_r b ≠ key_l a
          end.
Proof.
  unfold left_outer_join. rewrite list_elem_of_bind. split.
  - intros (a' & Hin & Ha').
    assert (a' = a) as ->.
    { destruct (filter _ r) as [|b0 m].
      - apply list_elem_of_singleton in Hin. congruence.
      - apply list_elem_of_fmap in Hin as (b & Heq & _). congruence. }
    split; [done|].
    destruct (filter _ r) as [|b0 m] eqn:Hf.
    + apply list_elem_of_singleton in Hin. injection Hin as ->.
      intros b Hb Hk.
      assert (b ∈ filter (λ b, key_r b = key_l a) r) as Hbf
        by (rewrite list_elem_of_filter; done).
      rewrite Hf in Hbf. by apply elem_of_nil in Hbf.
    + apply list_elem_of_fmap in Hin as (b & Heq & Hb). injection Heq as ->.
      rewrite <- Hf in Hb. rewrite list_elem_of_filter in Hb.
      by destruct Hb.
  - intros [Ha Ho]. exists a. split; [|done].
    destruct (filter _ r) as [|b0 m] eqn:Hf.
    + destruct o as [b|]; [|by apply list_elem_of_singleton].
      destruct Ho as [Hb Hk].
      assert (b ∈ filter (λ b, key_r b = key_l a) r) as Hbf
        by (rewrite list_elem_of_filter; done).
      rewrite Hf in Hbf. by apply elem_of_nil in Hbf.
    + destruct o as [b|].
      * destruct Ho as [Hb Hk]. apply list_elem_of_fmap. exists b.
        split; [done|]. rewrite <- Hf. by rewrite list_elem_of_filter.
      * exfalso. assert (b0 ∈ filter (λ b, key_r b = key_l a) r) as Hbf
          by (rewrite Hf; left).
        rewrite list_elem_of_filter in Hbf. destruct Hbf as [? ?]. by eapply Ho.
Qed.

(** Every row of the left side survives a left outer join. *)
Lemma left_outer_join_total {A B : Type} (key_l : A → Z) (key_r : B → Z)
    (l : list A) (r : list B) (a : A) :
  a ∈ l → ∃ o, (a, o) ∈ left_outer_join key_l key_r l r.
Proof.
  intros Ha. destruct (filter (λ b, key_r b = key_l a) r) as [|b m] eqn:Hf.
  - exists None. apply elem_of_left_outer_join. split; [done|].
    intros b Hb Hk.
    assert (b ∈ filter (λ b, key_r b = key_l a) r) as Hbf
      by (rewrite list_elem_of_filter; done).
    rewrite Hf in Hbf. by apply elem_of_nil in Hbf.
  - exists (Some b). apply elem_of_left_outer_join. split; [done|].
    assert (b ∈ filter (λ b, key_r b = key_l a) r) as Hbf by (rewrite Hf; left).
    rewrite list_elem_of_filter in Hbf. by destruct Hbf.
Qed.

(* ===================================================================== *)
(** * The direct traversal of the category tree                          *)
(* ===================================================================== *)

Section Traversal.
Variable tbl : list Category.

Lemma related_Some (k : Z) (p : Category) :
  related category_id k tbl = Some p → p ∈ tbl ∧ category_id p = k.
Proof.
  unfold related. intros Hhd. apply head_Some_elem_of in Hhd.
  apply elem_of_filter_pk in Hhd. tauto.
Qed.

Lemma parent_of_in_tbl (c p : Category) : parent_of tbl c p → p ∈ tbl.
Proof. intros (k & _ & Hrel). by apply related_Some in Hrel as [? _]. Qed.

Lemma ancestor_of_in_tbl (c a : Category) : ancestor_of tbl c a → a ∈ tbl.
Proof. induction 1; eauto using parent_of_in_tbl. Qed.

(** One step of the walk. *)
Lemma parents_up_parent (fuel : nat) (c p : Category) :
  parent_of tbl c p →
  parents_up (S fuel) tbl c = p :: parents_up fuel tbl p.
Proof. intros (k & Hk & Hrel). simpl. by rewrite Hk, Hrel. Qed.

Lemma parents_up_root (fuel : nat) (c : Category) :
  category_parent c = None → parents_up fuel tbl c = [].
Proof. intros Hroot. destruct fuel; simpl; [done|]. by rewrite Hroot. Qed.

(** The walk only meets ancestors. *)
Lemma parents_up_sound (fuel : nat) (c a : Category) :
  a ∈ parents_up fuel tbl c → ancestor_of tbl c a.
Proof.
  revert c. induction fuel as [|fuel IH]; intros c; simpl.
  - by intros ?%elem_of_nil.
  - destruct (category_parent c) as [k|] eqn:Hk; [|by intros ?%elem_of_nil].
    destruct (related category_id k tbl) as [p|] eqn:Hrel;
      [|by intros ?%elem_of_nil].
    assert (parent_of tbl c p) as Hp by (by exists k).
    intros [->|Hin]%elem_of_cons.
    + by apply ancestor_parent.
    + eapply ancestor_step; eauto.
Qed.

(** With less fuel the walk yields a prefix. *)
Lemma parents_up_prefix (fuel fuel' : nat) (c : Category) :
  fuel ≤ fuel' →
  parents_up fuel tbl c = take fuel (parents_up fuel' tbl c).
Proof.
  revert fuel' c. induction fuel as [|fuel IH]; intros fuel' c Hle.
  - by rewrite take_0.
  - destruct fuel' as [|fuel']; [lia|]. simpl.
    destruct (category_parent c) as [k|]; [|done].
    destruct (related category_id k tbl) as [p|]; [|done].
    simpl. f_equal. apply IH. lia.
Qed.

(** A walk that did not use up its fuel is not changed by more fuel. *)
Lemma parents_up_stopped (fuel fuel' : nat) (c : Category) :
  length (parents_up fuel tbl c) < fuel → fuel ≤ fuel' →
  parents_up fuel' tbl c = parents_up fuel tbl c.
Proof.
  revert fuel' c. induction fuel as [|fuel IH]; intros fuel' c Hlen Hle.
  - lia.
  - destruct fuel' as [|fuel']; [lia|]. simpl in *.
    destruct (category_parent c) as [k|]; [|done].
    destruct (related category_id k tbl) as [p|]; [|done].
    simpl in Hlen. f_equal. apply IH; lia.
Qed.

Section Acyclic.
Hypothesis Hacyclic : acyclic tbl.

Lemma parents_up_NoDup (fuel : nat) (c : Category) :
  NoDup (parents_up fuel tbl c).
Proof.
  revert c. induction fuel as [|fuel IH]; intros c; simpl.
  - apply NoDup_nil_2.
  - destruct (category_parent c) as [k|]; [|apply NoDup_nil_2].
    destruct (related category_id k tbl) as [p|]; [|apply NoDup_nil_2].
    apply NoDup_cons. split; [|apply IH].
    intros Hin%parents_up_sound. by apply (Hacyclic p).
Qed.

Lemma parents_up_length (fuel : nat) (c : Category) :
  length (parents_up fuel tbl c) ≤ length tbl.
Proof.
  apply submseteq_length, NoDup_submseteq; [apply parents_up_NoDup|].
  intros a Hin%parents_up_sound. by eapply ancestor_of_in_tbl.
Qed.

(** The fuel of [get_ancestors] is enough: more fuel finds no more. *)
Lemma parents_up_enough_fuel (fuel : nat) (c : Category) :
  length tbl ≤ fuel →
  parents_up fuel tbl c = parents_up (length tbl) tbl c.
Proof.
  intros Hle.
  pose proof (parents_up_length (S (length tbl)) c) as Hlen.
  rewrite (parents_up_prefix (length tbl) (S (length tbl))) by lia.
  rewrite take_ge by done.
  destruct (decide (fuel = length tbl)) as [->|Hne].
  - rewrite (parents_up_prefix (length tbl) (S (length tbl))) by lia.
    by rewrite take_ge.
  - apply parents_up_stopped; lia.
Qed.

(** Every ancestor is met by the walk. *)
Lemma parents_up_complete (c a : Category) :
  ancestor_of tbl c a → a ∈ parents_up (length tbl) tbl c.
Proof.
  intros Hanc.
  assert (∃ fuel, a ∈ parents_up fuel tbl c) as [fuel Hin].
  { induction Hanc as [c p Hp|c p a Hp _ [fuel IH]].
    - exists 1. rewrite (parents_up_parent _ _ _ Hp). left.
    - exists (S fuel). rewrite (parents_up_parent _ _ _ Hp). by right. }
  rewrite <- (parents_up_enough_fuel (fuel + length tbl)) by lia.
  rewrite (parents_up_prefix fuel (fuel + length tbl)) in Hin by lia.
  by eapply subseteq_take.
Qed.

(** The direct traversal returns exactly the ancestors of a category. *)
Lemma elem_of_get_ancestors (c a : Category) :
  a ∈ get_ancestors tbl c ↔ ancestor_of tbl c a.
Proof.
  unfold get_ancestors. rewrite elem_of_reverse. split.
  - apply parents_up_sound.
  - apply parents_up_complete.
Qed.

(** It lists them from the root down: the ancestors of a category are the
    ancestors of its parent, followed by the parent. *)
Lemma get_ancestors_child (c p : Category) :
  parent_of tbl c p →
  get_ancestors tbl c = get_ancestors tbl p ++ [p].
Proof.
  intros Hp. unfold get_ancestors.
  rewrite <- (parents_up_enough_fuel (S (length tbl)) c) by lia.
  by rewrite (parents_up_parent _ _ _ Hp), reverse_cons.
Qed.

(** The subtree of a category: the category and the rows below it. *)
Lemma elem_of_get_descendants (c d : Category) :
  d ∈ get_descendants true tbl c ↔
  d ∈ tbl ∧ (category_id d = category_id c
             ∨ ∃ a, ancestor_of tbl d a ∧ category_id a = category_id c).
Proof.
  unfold get_descendants. rewrite list_elem_of_filter.
  setoid_rewrite list_elem_of_fmap. setoid_rewrite elem_of_get_ancestors.
  split.
  - intros [[[_ Hid]|(a & Hid & Ha)] Hd]; split; eauto.
  - intros [Hd [Hid|(a & Ha & Hid)]]; split; eauto.
Qed.

End Acyclic.

Lemma get_ancestors_root (c : Category) :
  category_parent c = None → get_ancestors tbl c = [].
Proof. intros Hroot. unfold get_ancestors. by rewrite parents_up_root. Qed.

(** A table in which every parent key is smaller than the key of the
    child has no cycle. *)
Lemma acyclic_by_keys :
  Forall (λ c, ∀ k, category_parent c = Some k → (k < category_id c)%Z) tbl →
  acyclic tbl.
Proof.
  rewrite Forall_forall. intros Hkeys.
  assert (∀ c a, ancestor_of tbl c a → c ∈ tbl →
                 (category_id a < category_id c)%Z) as Hlt.
  { intros c a Hanc. induction Hanc as [c p Hp|c p a Hp Hanc IH]; intros Hc.
    - destruct Hp as (k & Hk & [_ <-]%related_Some). by apply Hkeys.
    - pose proof (parent_of_in_tbl _ _ Hp) as Hpin.
      destruct Hp as (k & Hk & [_ <-]%related_Some).
      specialize (Hkeys c Hc _ Hk). specialize (IH Hpin). lia. }
  intros c Hcc. pose proof (ancestor_of_in_tbl _ _ Hcc) as Hc.
  specialize (Hlt c c Hcc Hc). lia.
Qed.

End Traversal.

(** The example catalog is a tree. *)
Lemma shop_acyclic : acyclic (Category_objects shop).
Proof.
  apply acyclic_by_keys. simpl.
  repeat (apply Forall_cons; split;
          [intros k Hk; simpl in Hk; try discriminate;
           injection Hk as <-; simpl; lia|]).
  apply Forall_nil_2.
Qed.

(* ===================================================================== *)
(** * The payment vocabulary                                             *)
(* ===================================================================== *)

(** C8. The payment vocabulary is closed and exact: the transaction kinds
    are exactly auth, capture, void, refund and confirm; the charge
    statuses are exactly not-charged, partially-charged, fully-charged,
    partially-refunded and fully-refunded; the transaction errors have
    exactly ten members (pairwise distinct, with pairwise distinct
    values, and no member outside the list); and the [CHOICES] lists of
    [TransactionKind] and [ChargeStatus] name each of their values exactly
    once. *)
Theorem payment_vocabulary_closed :
  (TransactionKind.values = ["auth"; "capture"; "void"; "refund"; "confirm"]
   ∧ NoDup TransactionKind.values)
  ∧ (ChargeStatus.values =
       ["not-charged"; "partially-charged"; "fully-charged";
        "partially-refunded"; "fully-refunded"]
     ∧ NoDup ChargeStatus.values)
  ∧ (length TransactionError_members = 10
     ∧ NoDup TransactionError_members
     ∧ (∀ e, e ∈ TransactionError_members)
     ∧ NoDup (TransactionError_value <$> TransactionError_members))
  ∧ (TransactionKind.CHOICES.*1 ≡ₚ TransactionKind.values
     ∧ NoDup TransactionKind.CHOICES.*1)
  ∧ (ChargeStatus.CHOICES.*1 ≡ₚ ChargeStatus.values
     ∧ NoDup ChargeStatus.CHOICES.*1).
Proof.
  repeat split;
    try (apply (bool_decide_unpack _); vm_compute; reflexivity).
  intros e. destruct e; unfold TransactionError_members;
    repeat (first [by left | right]).
Qed.

(* ===================================================================== *)
(** * The category resolver and the ancestor cache                       *)
(* ===================================================================== *)

Section AncestorCache.
Context {User : Type}.
Implicit Types (db : Database) (context : RequestContext User).

Lemma getattr_setattr context name value :
  getattr (setattr context name value) name = Some value.
Proof. unfold getattr, setattr. simpl. apply lookup_insert_eq. Qed.

(** What [resolve_category] does when the identifier is that of a stored
    category. *)
Lemma resolve_category_found db (c : Category) context :
  NoDup (category_id <$> Category_objects db) →
  c ∈ Category_objects db →
  resolve_category db (category_id c) context =
    (Some c,
     setattr context CONTEXT_CACHE_NAME
       {[ CACHE_ANCESTORS :=
            CategoryAncestorsCache_init (Category_objects db) c ]}).
Proof.
  intros Hnd Hin. unfold resolve_category, get_cached_trees.
  by rewrite filter_pk_unique.
Qed.

(** What [get_ancestors_from_cache] does with a context that carries an
    ancestor cache: it hands the question to the cache. *)
Lemma get_ancestors_from_cache_hit db (c : Category) context ac :
  context_ancestors_cache context = Some ac →
  get_ancestors_from_cache db c context =
    CategoryAncestorsCache_get (Category_objects db) ac c.
Proof.
  unfold context_ancestors_cache, get_ancestors_from_cache.
  destruct (getattr context CONTEXT_CACHE_NAME) as [cache|]; [simpl|done].
  intros Hac.
  assert (cache ≠ ∅) as Hne by (intros ->; by rewrite lookup_empty in Hac).
  unfold dict_truthy. rewrite (bool_decide_eq_false_2 _ Hne). simpl.
  rewrite bool_decide_eq_true_2 by (apply elem_of_dom; eauto).
  by rewrite (lookup_total_correct _ _ _ Hac).
Qed.

(** What it does with a context that carries none: the direct traversal. *)
Lemma get_ancestors_from_cache_miss db (c : Category) context :
  context_ancestors_cache context = None →
  get_ancestors_from_cache db c context =
    Some (get_ancestors (Category_objects db) c).
Proof.
  unfold context_ancestors_cache, get_ancestors_from_cache.
  destruct (getattr context CONTEXT_CACHE_NAME) as [cache|]; [simpl|done].
  intros Hac.
  rewrite (bool_decide_eq_false_2 (CACHE_ANCESTORS ∈ dom cache)).
  - by rewrite andb_false_r.
  - rewrite elem_of_dom, Hac. by intros [? ?].
Qed.

(** The cache built for a category answers, for every node of its subtree,
    with the direct traversal of that node. *)
Lemma CategoryAncestorsCache_get_init (tbl : list Category)
    (c d : Category) :
  NoDup (category_id <$> tbl) →
  d ∈ get_descendants true tbl c →
  CategoryAncestorsCache_get tbl (CategoryAncestorsCache_init tbl c) d =
    Some (get_ancestors tbl d).
Proof.
  intros Hnd Hd. unfold CategoryAncestorsCache_get, CategoryAncestorsCache_init.
  simpl.
  rewrite (elem_of_list_to_map_1 _ (category_id d) (get_ancestors tbl d));
    [done| |].
  - rewrite <- list_fmap_compose.
    eapply sublist_NoDup; [exact Hnd|].
    apply fmap_sublist. unfold get_descendants. apply sublist_filter.
  - apply list_elem_of_fmap. by exists d.
Qed.

(** A cache that does not hold a category answers with the direct
    traversal of that category. *)
Lemma CategoryAncestorsCache_get_absent (tbl : list Category)
    (ac : CategoryAncestorsCache) (c : Category) :
  cache_entries ac !! category_id c = None →
  CategoryAncestorsCache_get tbl ac c = Some (get_ancestors tbl c).
Proof. intros Hnone. unfold CategoryAncestorsCache_get. by rewrite Hnone. Qed.

(** A context does not hold a category in its cache either because it
    carries no ancestor cache or because the cache it carries has no entry
    for the category. *)
Lemma cache_contains_false context (c : Category) :
  cache_contains context c = false ↔
  context_ancestors_cache context = None
  ∨ ∃ ac, context_ancestors_cache context = Some ac
          ∧ cache_entries ac !! category_id c = None.
Proof.
  unfold cache_contains.
  destruct (context_ancestors_cache context) as [ac|]; [|by split; [left|]].
  rewrite bool_decide_eq_false, <- eq_None_not_Some. split.
  - intros Hnone. right. by exists ac.
  - intros [?|(ac' & [= <-] & Hnone)]; done.
Qed.

Lemma get_descendants_self (tbl : list Category) (c : Category) :
  c ∈ tbl → c ∈ get_descendants true tbl c.
Proof.
  intros Hin. unfold get_descendants. rewrite list_elem_of_filter.
  split; [by left|done].
Qed.

End AncestorCache.

(** Every node of the subtree of a resolved category is answered from the
    cache with its direct traversal. *)
Lemma cached_ancestors_of_subtree {User : Type} (db : Database)
    (c d : Category) (context : RequestContext User) :
  NoDup (category_id <$> Category_objects db) →
  c ∈ Category_objects db →
  d ∈ get_descendants true (Category_objects db) c →
  get_ancestors_from_cache db d
    (resolve_category db (category_id c) context).2 =
    Some (get_ancestors (Category_objects db) d).
Proof.
  intros Hnd Hc Hd. rewrite resolve_category_found by done. simpl.
  erewrite get_ancestors_from_cache_hit.
  - by apply CategoryAncestorsCache_get_init.
  - unfold context_ancestors_cache. rewrite getattr_setattr. simpl.
    apply lookup_singleton_eq.
Qed.

(** C1. For every category [c] of the store, [resolve_category] called
    with the identifier of [c] returns [c], and [get_ancestors_from_cache]
    called for [c] on the context it leaves returns the same ordered
    sequence of ancestors (root first, [c] excluded) as the direct,
    uncached traversal [get_ancestors] of the store. *)
Theorem resolve_category_then_cached_ancestors {User : Type} (db : Database)
    (c : Category) (context : RequestContext User) :
  NoDup (category_id <$> Category_objects db) →
  c ∈ Category_objects db →
  (resolve_category db (category_id c) context).1 = Some c
  ∧ get_ancestors_from_cache db c
      (resolve_category db (category_id c) context).2 =
      Some (get_ancestors (Category_objects db) c).
Proof.
  intros Hnd Hc. split.
  - by rewrite resolve_category_found.
  - apply cached_ancestors_of_subtree; [done..|].
    by apply get_descendants_self.
Qed.

Lemma resolve_category_then_cached_ancestors_witness :
  (resolve_category shop 4 (fresh_context Staff)).1 = Some Crime
  ∧ get_ancestors_from_cache shop Crime
      (resolve_category shop 4 (fresh_context Staff)).2 =
      Some [Books; Fiction].
Proof.
  apply (resolve_category_then_cached_ancestors shop Crime
           (fresh_context Staff)).
  - apply (bool_decide_unpack _). vm_compute. reflexivity.
  - apply (bool_decide_unpack _). vm_compute. reflexivity.
Defined.

(** C2. For every category and every context that either carries no
    populated ancestor cache (no cache attribute, an empty cache
    dictionary, or a dictionary without the ancestors entry) or carries a
    cache that does not hold the category, [get_ancestors_from_cache]
    falls back to the direct, uncached traversal and returns the ancestor
    sequence of the category: the result is never absent and never taken
    from another entry of the cache. *)
Theorem get_ancestors_from_cache_fallback {User : Type} (db : Database)
    (c : Category) (context : RequestContext User) :
  cache_contains context c = false →
  get_ancestors_from_cache db c context =
    Some (get_ancestors (Category_objects db) c).
Proof.
  intros [Hnone|(ac & Hac & Hnone)]%cache_contains_false.
  - by apply get_ancestors_from_cache_miss.
  - rewrite (get_ancestors_from_cache_hit db c context ac Hac).
    by apply CategoryAncestorsCache_get_absent.
Qed.

Lemma get_ancestors_from_cache_fallback_witness :
  get_ancestors_from_cache shop Crime context_after_Apparel =
    Some [Books; Fiction].
Proof.
  apply (get_ancestors_from_cache_fallback shop Crime context_after_Apparel).
  vm_compute. reflexivity.
Defined.

(** The same holds on a request that has resolved nothing yet. *)
Example get_ancestors_from_cache_fresh :
  cache_contains (fresh_context Customer) Crime = false
  ∧ get_ancestors_from_cache shop Crime (fresh_context Customer) =
      Some [Books; Fiction].
Proof. split; vm_compute; reflexivity. Qed.

(** C10. [resolve_category] changes the request context only on success.
    For an identifier that matches no category it returns [None] and
    leaves the context exactly as it was: no cache is created, attached
    or cleared.  In every case, either that is what happens, or a stored
    category with that identifier is returned and the context differs
    only by the cache attribute being set to a cache built for it. *)
Theorem resolve_category_miss_keeps_context {User : Type} (db : Database)
    (id : Z) (context : RequestContext User) :
  ((∀ c, c ∈ Category_objects db → category_id c ≠ id) →
   resolve_category db id context = (None, context))
  ∧ (resolve_category db id context = (None, context)
     ∨ ∃ c, c ∈ Category_objects db ∧ category_id c = id
            ∧ resolve_category db id context =
                (Some c,
                 mkRequestContext (user context)
                   (<[CONTEXT_CACHE_NAME :=
                        {[ CACHE_ANCESTORS :=
                             CategoryAncestorsCache_init
                               (Category_objects db) c ]}]>
                      (attributes context)))).
Proof.
  unfold resolve_category, get_cached_trees. split.
  - intros Hno. by rewrite filter_pk_absent.
  - destruct (filter_pk category_id id (Category_objects db))
      as [|c rest] eqn:Hf; [by left|right].
    exists c. assert (c ∈ filter_pk category_id id (Category_objects db))
      as Hc by (rewrite Hf; left).
    apply elem_of_filter_pk in Hc as [Hid Hin]. done.
Qed.

Lemma resolve_category_miss_keeps_context_witness :
  resolve_category shop 7 context_after_Apparel =
    (None, context_after_Apparel).
Proof.
  apply (proj1 (resolve_category_miss_keeps_context shop 7
                  context_after_Apparel)).
  intros c Hc. revert c Hc. apply Forall_forall.
  apply (bool_decide_unpack _). vm_compute. reflexivity.
Defined.

(* ===================================================================== *)
(** * The product resolver                                               *)
(* ===================================================================== *)

Section ProductResolver.
Context {User : Type} (visible : User → Product → bool).
Implicit Types (db : Database) (context : RequestContext User).

Lemma elem_of_products_visible_to_user db (u : User) (p : Product) :
  p ∈ products_visible_to_user visible db u ↔
  visible u p = true ∧ p ∈ Product_objects db.
Proof. unfold products_visible_to_user. by rewrite list_elem_of_filter. Qed.

(** X3. An identifier that no stored product has makes [resolve_product]
    return [None], whoever asks. *)
Lemma resolve_product_not_found db (id : Z) context :
  (∀ p, p ∈ Product_objects db → product_id p ≠ id) →
  resolve_product visible db id context = None.
Proof.
  intros Hno. unfold resolve_product. rewrite filter_pk_absent; [done|].
  intros p Hp. apply elem_of_products_visible_to_user in Hp as [_ Hp].
  by apply Hno.
Qed.

(** A product the policy shows to the requester is returned. *)
Lemma resolve_product_visible db (p : Product) context :
  NoDup (product_id <$> Product_objects db) →
  p ∈ Product_objects db →
  visible (user context) p = true →
  resolve_product visible db (product_id p) context = Some p.
Proof.
  intros Hnd Hp Hvis. unfold resolve_product.
  rewrite filter_pk_unique; [done| |by apply elem_of_products_visible_to_user].
  eapply sublist_NoDup; [exact Hnd|].
  apply fmap_sublist. unfold products_visible_to_user. apply sublist_filter.
Qed.

(** The products [resolve_products] returns for a category: the stored
    products of that category that the policy shows to the requester, in
    storage order. *)
Lemma resolve_products_rows db (self : Category) context :
  resolve_products visible db self context =
    filter (λ p, product_category p = category_id self)
      (filter (λ p, visible (user context) p = true) (Product_objects db)).
Proof. reflexivity. Qed.

Lemma elem_of_resolve_products db (self : Category) context (p : Product) :
  p ∈ resolve_products visible db self context ↔
  p ∈ Product_objects db
  ∧ visible (user context) p = true
  ∧ product_category p = category_id self.
Proof.
  rewrite resolve_products_rows, !list_elem_of_filter. tauto.
Qed.

End ProductResolver.

(** C4. For every stored product [p] and every request whose user the
    visibility policy does not let see [p], [resolve_product] called with
    the identifier of [p] returns [None], never [p]. *)
Theorem resolve_product_invisible {User : Type}
    (visible : User → Product → bool) (db : Database) (p : Product)
    (context : RequestContext User) :
  NoDup (product_id <$> Product_objects db) →
  p ∈ Product_objects db →
  visible (user context) p = false →
  resolve_product visible db (product_id p) context = None.
Proof.
  intros Hnd Hp Hhidden. unfold resolve_product.
  rewrite filter_pk_absent; [done|].
  intros q Hq Hid. apply elem_of_products_visible_to_user in Hq as [Hvis Hq].
  assert (q ∈ filter_pk product_id (product_id p) (Product_objects db)) as Hin
    by (by apply elem_of_filter_pk).
  rewrite filter_pk_unique in Hin by done.
  apply list_elem_of_singleton in Hin as ->. congruence.
Qed.

Lemma resolve_product_invisible_witness :
  resolve_product staff_sees_all shop 11 (fresh_context Customer) = None.
Proof.
  apply (resolve_product_invisible staff_sees_all shop Shirt
           (fresh_context Customer)).
  - apply (bool_decide_unpack _). vm_compute. reflexivity.
  - apply (bool_decide_unpack _). vm_compute. reflexivity.
  - vm_compute. reflexivity.
Defined.

(** C7. The thumbnail resolver called without a size, or with a size of
    [None], asks the thumbnail collaborator for the size "255x255"; called
    with a non-empty size it asks for that size. *)
Theorem resolve_thumbnail_url_default_size
    (product_first_image : Product → string → string) (self : Product) :
  resolve_thumbnail_url product_first_image self None =
    product_first_image self "255x255"
  ∧ ∀ s : string, s ≠ ""%string →
      resolve_thumbnail_url product_first_image self (Some s) =
        product_first_image self s.
Proof.
  split; [reflexivity|].
  intros s Hs. unfold resolve_thumbnail_url, str_truthy.
  by rewrite (bool_decide_eq_false_2 _ Hs).
Qed.

Lemma resolve_thumbnail_url_default_size_witness :
  resolve_thumbnail_url first_image_stub Novel None =
    "/media/Novel-255x255.jpg"%string
  ∧ resolve_thumbnail_url first_image_stub Novel (Some "60x60"%string) =
      "/media/Novel-60x60.jpg"%string.
Proof.
  split.
  - apply (proj1 (resolve_thumbnail_url_default_size first_image_stub Novel)).
  - apply (proj2 (resolve_thumbnail_url_default_size first_image_stub Novel)).
    apply (bool_decide_unpack _). vm_compute. reflexivity.
Defined.

(** The empty size string also gets the default size. *)
Lemma resolve_thumbnail_url_empty_size
    (product_first_image : Product → string → string) (self : Product) :
  resolve_thumbnail_url product_first_image self (Some ""%string) =
    product_first_image self "255x255".
Proof. reflexivity. Qed.

(* ===================================================================== *)
(** * The attribute resolver                                             *)
(* ===================================================================== *)

Lemma elem_of_links (links : list Link) (t : Z) (a : ProductAttribute)
    (product_types : gset Z) :
  (∃ l, l ∈ links ∧ link_attribute l = attribute_id a
        ∧ link_product_type l ∈ product_types)
  ↔ ∃ t, t ∈ product_types ∧ (t, attribute_id a) ∈ links.
Proof.
  unfold link_attribute, link_product_type. split.
  - intros ([t' k] & Hl & Hk & Ht). simpl in *. subst k. by exists t'.
  - intros (t' & Ht & Hl). by exists (t', attribute_id a).
Qed.

(** The attributes kept by the filter on product types: those linked,
    along either path, to a product type of the set. *)
Lemma elem_of_filter_product_types (db : Database) (product_types : gset Z)
    (queryset : list ProductAttribute) (a : ProductAttribute) :
  a ∈ filter_product_types db product_types queryset ↔
  a ∈ queryset ∧ ∃ t, t ∈ product_types ∧ associated db t a.
Proof.
  unfold filter_product_types, associated. rewrite list_elem_of_fmap.
  setoid_rewrite list_elem_of_filter. split.
  - intros ([[a' o1] o2] & -> & Hkeep & Hrow). simpl in *.
    apply elem_of_left_outer_join in Hrow as [Hrow Ho2]. simpl in Ho2.
    apply elem_of_left_outer_join in Hrow as [Ha Ho1].
    split; [done|]. destruct Hkeep as [Hin|Hin].
    + destruct o1 as [l|]; [|done]. destruct Ho1 as [Hl Hk].
      destruct (proj1 (elem_of_links (product_types_links db)
                         0%Z a' product_types)) as (t & Ht & Hlt); eauto.
    + destruct o2 as [l|]; [|done]. destruct Ho2 as [Hl Hk].
      destruct (proj1 (elem_of_links (product_variant_types_links db)
                         0%Z a' product_types)) as (t & Ht & Hlt); eauto.
  - intros [Ha (t & Ht & [Hl|Hl])].
    + destruct (left_outer_join_total (λ r, attribute_id r.1) link_attribute
                  (left_outer_join attribute_id link_attribute queryset
                     (product_types_links db))
                  (product_variant_types_links db) (a, Some (t, attribute_id a)))
        as [o2 Ho2].
      { apply elem_of_left_outer_join. done. }
      exists (a, Some (t, attribute_id a), o2). simpl. split; [done|].
      split; [by left|done].
    + destruct (left_outer_join_total attribute_id link_attribute queryset
                  (product_types_links db) a Ha) as [o1 Ho1].
      exists (a, o1, Some (t, attribute_id a)). simpl. split; [done|].
      split; [by right|]. apply elem_of_left_outer_join. done.
Qed.

(** C5. [resolve_attributes] called without a category returns all the
    attributes of the store, each exactly once, whatever the product types
    they are linked to and however many links they have. *)
Theorem resolve_attributes_all (db : Database) :
  ∃ attrs, resolve_attributes db None = Returns attrs
    ∧ NoDup attrs
    ∧ ∀ a, a ∈ attrs ↔ a ∈ ProductAttribute_objects db.
Proof.
  exists (distinct (ProductAttribute_objects db)).
  split; [reflexivity|]. split; [apply NoDup_distinct|].
  intros a. apply elem_of_distinct.
Qed.

(** What [resolve_attributes] returns for the key of a stored category. *)
Lemma resolve_attributes_found (db : Database) (c : Category) :
  valid_pks (category_id <$> Category_objects db) →
  c ∈ Category_objects db →
  resolve_attributes db (Some (category_id c)) =
    Returns
      (distinct
         (filter_product_types db
            (list_to_set
               (product_type_id
                  <$> filter
                        (λ p, product_category p
                                ∈ category_id
                                    <$> get_descendants true
                                          (Category_objects db) c)
                        (Product_objects db)))
            (ProductAttribute_objects db))).
Proof.
  intros [Hnd Hpos] Hc. unfold resolve_attributes.
  assert (category_id c ≠ 0%Z) as Hnz.
  { rewrite Forall_forall in Hpos.
    specialize (Hpos (category_id c) (list_elem_of_fmap_2 _ _ _ Hc)). lia. }
  unfold int_truthy. rewrite (bool_decide_eq_false_2 _ Hnz). simpl.
  by rewrite objects_get_unique.
Qed.

(** C6. For every stored category, [resolve_attributes] called with its
    primary key returns, each exactly once, exactly the attributes that
    are associated, along the product-type path or along the variant-type
    path, with a product type used by a product of the subtree of the
    category (the category itself included); for a category whose subtree
    holds no product it returns the empty list. *)
Theorem resolve_attributes_of_category (db : Database) (pk : Z)
    (c : Category) :
  valid_pks (category_id <$> Category_objects db) →
  c ∈ Category_objects db →
  category_id c = pk →
  ∃ attrs, resolve_attributes db (Some pk) = Returns attrs
    ∧ NoDup attrs
    ∧ (∀ a, a ∈ attrs ↔ attribute_of_subtree db c a)
    ∧ ((∀ p, p ∈ Product_objects db → ¬ in_subtree db c p) → attrs = []).
Proof.
  intros Hpks Hc <-. eexists. split; [by apply resolve_attributes_found|].
  split; [apply NoDup_distinct|].
  assert (∀ a,
    a ∈ distinct
          (filter_product_types db
             (list_to_set
                (product_type_id
                   <$> filter
                         (λ p, product_category p
                                 ∈ category_id
                                     <$> get_descendants true
                                           (Category_objects db) c)
                         (Product_objects db)))
             (ProductAttribute_objects db))
    ↔ attribute_of_subtree db c a) as Hchar.
  { intros a. rewrite elem_of_distinct, elem_of_filter_product_types.
    unfold attribute_of_subtree, in_subtree. split.
    - intros [Ha (t & Ht & Hassoc)]. split; [done|].
      apply elem_of_list_to_set, list_elem_of_fmap in Ht as (p & -> & Hp).
      rewrite list_elem_of_filter in Hp. destruct Hp as [Hcat Hp].
      apply list_elem_of_fmap in Hcat as (d & Hcat & Hd).
      exists p. eauto.
    - intros [Ha (p & Hp & (d & Hd & Hcat) & Hassoc)]. split; [done|].
      exists (product_type_id p). split; [|done].
      apply elem_of_list_to_set, list_elem_of_fmap. exists p. split; [done|].
      rewrite list_elem_of_filter. split; [|done].
      apply list_elem_of_fmap. by exists d. }
  split; [exact Hchar|].
  intros Hempty. apply elem_of_nil_inv. intros a Ha.
  apply Hchar in Ha as [_ (p & Hp & Hsub & _)]. by apply (Hempty p).
Qed.

Lemma resolve_attributes_of_category_witness :
  ∃ attrs, resolve_attributes shop (Some 2%Z) = Returns attrs
    ∧ NoDup attrs
    ∧ (∀ a, a ∈ attrs ↔ attribute_of_subtree shop Books a)
    ∧ ((∀ p, p ∈ Product_objects shop → ¬ in_subtree shop Books p)
       → attrs = []).
Proof.
  apply (resolve_attributes_of_category shop 2 Books).
  - apply (bool_decide_unpack _). vm_compute. reflexivity.
  - apply (bool_decide_unpack _). vm_compute. reflexivity.
  - reflexivity.
Defined.

(** On the example catalog: the attributes of [Books] are those of the
    product type of the novel and of the poems, each once; [Maps] has no
    product, hence no attribute. *)
Example resolve_attributes_Books :
  resolve_attributes shop (Some 2%Z) = Returns [author; cover].
Proof. vm_compute. reflexivity. Qed.

Example resolve_attributes_Maps :
  resolve_attributes shop (Some 5%Z) = Returns [].
Proof. vm_compute. reflexivity. Qed.

(** A primary key that is not zero and matches no category makes
    [resolve_attributes] raise [DoesNotExist]. *)
Lemma resolve_attributes_not_found (db : Database) (pk : Z) :
  pk ≠ 0%Z →
  (∀ c, c ∈ Category_objects db → category_id c ≠ pk) →
  resolve_attributes db (Some pk) = Raises DoesNotExist.
Proof.
  intros Hnz Hno. unfold resolve_attributes, int_truthy.
  rewrite (bool_decide_eq_false_2 _ Hnz). simpl.
  by rewrite objects_get_absent.
Qed.

(** C3, at the input where it fails.  The example catalog has no category
    with primary key 7: [resolve_category] and [resolve_product] answer
    [None] for the identifier 7 and leave the context alone, but
    [resolve_attributes] raises [DoesNotExist]. *)
Theorem resolve_attributes_unknown_category_raises :
  Forall (λ c, category_id c ≠ 7%Z) (Category_objects shop)
  ∧ resolve_category shop 7 (fresh_context Customer) =
      (None, fresh_context Customer)
  ∧ resolve_product staff_sees_all shop 7 (fresh_context Customer) = None
  ∧ resolve_attributes shop (Some 7%Z) = Raises DoesNotExist.
Proof.
  split; [apply (bool_decide_unpack _); vm_compute; reflexivity|].
  repeat split; vm_compute; reflexivity.
Qed.

(* ===================================================================== *)
(** * Lookup and listing of products                                     *)
(* ===================================================================== *)

Lemma first_elem_of {A : Type} (pk : A → Z) (qs : list A) (row : A) :
  first pk qs = Some row → row ∈ qs.
Proof.
  unfold first. intros Hhd%head_Some_elem_of.
  by rewrite merge_sort_Permutation in Hhd.
Qed.

Lemma length_filter_split {A : Type} (P Q : A → Prop)
    `{∀ x, Decision (P x)} `{∀ x, Decision (Q x)} (l : list A) :
  length (filter P l) =
    length (filter P (filter Q l)) + length (filter (λ x, P x ∧ ¬ Q x) l).
Proof.
  induction l as [|x l IH]; [done|].
  rewrite !filter_cons.
  destruct (decide (Q x)) as [HQ|HQ]; destruct (decide (P x)) as [HP|HP];
    rewrite ?filter_cons; repeat case_decide; simpl; try tauto; lia.
Qed.

(** X1. Whatever product [resolve_product] returns is a stored product
    that has the requested identifier and that the policy shows to the
    user of the request; it never returns a hidden product or one with
    another identifier, even when keys are not unique. *)
Theorem resolve_product_sound {User : Type}
    (visible : User → Product → bool) (db : Database) (id : Z)
    (context : RequestContext User) (p : Product) :
  resolve_product visible db id context = Some p →
  p ∈ Product_objects db
  ∧ product_id p = id
  ∧ visible (user context) p = true.
Proof.
  unfold resolve_product. intros Hin%first_elem_of.
  apply elem_of_filter_pk in Hin as [Hid Hin].
  apply elem_of_products_visible_to_user in Hin as [Hvis Hin]. done.
Qed.

Lemma resolve_product_sound_witness :
  Novel ∈ Product_objects shop
  ∧ product_id Novel = 10%Z
  ∧ staff_sees_all Customer Novel = true.
Proof.
  apply (resolve_product_sound staff_sees_all shop 10
           (fresh_context Customer) Novel).
  vm_compute. reflexivity.
Defined.

(** X2. Listing and lookup agree: with unique product keys, every product
    that [resolve_products] lists for a category in a request is returned
    by [resolve_product] for its identifier in the same request. *)
Theorem resolve_products_then_resolve_product {User : Type}
    (visible : User → Product → bool) (db : Database) (c : Category)
    (context : RequestContext User) (p : Product) :
  NoDup (product_id <$> Product_objects db) →
  p ∈ resolve_products visible db c context →
  resolve_product visible db (product_id p) context = Some p.
Proof.
  intros Hnd Hp. apply elem_of_resolve_products in Hp as (Hin & Hvis & _).
  by apply resolve_product_visible.
Qed.

Lemma resolve_products_then_resolve_product_witness :
  resolve_product staff_sees_all shop 12 (fresh_context Customer) =
    Some Poems.
Proof.
  apply (resolve_products_then_resolve_product staff_sees_all shop Fiction
           (fresh_context Customer) Poems).
  - apply (bool_decide_unpack _). vm_compute. reflexivity.
  - apply (bool_decide_unpack _). vm_compute. reflexivity.
Defined.

Lemma resolve_product_not_found_witness :
  resolve_product staff_sees_all shop 7 (fresh_context Staff) = None.
Proof.
  apply (resolve_product_not_found staff_sees_all shop 7
           (fresh_context Staff)).
  intros p Hp. revert p Hp. apply Forall_forall.
  apply (bool_decide_unpack _). vm_compute. reflexivity.
Defined.

(** X4. [resolve_products] lists exactly the stored products whose
    category is the category itself (not one of its subcategories) and
    that the policy shows to the user of the request; a table without
    repeated rows gives a list without repeated rows. *)
Theorem resolve_products_exact {User : Type}
    (visible : User → Product → bool) (db : Database) (c : Category)
    (context : RequestContext User) :
  (∀ p, p ∈ resolve_products visible db c context ↔
        p ∈ Product_objects db
        ∧ visible (user context) p = true
        ∧ product_category p = category_id c)
  ∧ (NoDup (Product_objects db) →
     NoDup (resolve_products visible db c context)).
Proof.
  split; [intros p; apply elem_of_resolve_products|].
  intros Hnd. rewrite resolve_products_rows. by do 2 apply NoDup_filter.
Qed.

Lemma resolve_products_exact_witness :
  NoDup (resolve_products staff_sees_all shop Fiction (fresh_context Staff)).
Proof.
  apply (proj2 (resolve_products_exact staff_sees_all shop Fiction
                  (fresh_context Staff))).
  apply (bool_decide_unpack _). vm_compute. reflexivity.
Defined.

(** X5. [resolve_products_count] does not apply the visibility policy:
    the count of a category is the number of products [resolve_products]
    lists for it plus the number of its products hidden from the user. *)
Theorem resolve_products_count_counts_hidden {User : Type}
    (visible : User → Product → bool) (db : Database) (c : Category)
    (context : RequestContext User) :
  resolve_products_count db c =
    length (resolve_products visible db c context)
    + length (filter (λ p, product_category p = category_id c
                           ∧ ¬ visible (user context) p = true)
                (Product_objects db)).
Proof.
  unfold resolve_products_count. rewrite resolve_products_rows.
  apply (length_filter_split
           (λ p, product_category p = category_id c)
           (λ p, visible (user context) p = true)).
Qed.

(** On the example catalog a customer is shown no product of [Apparel],
    while its count is one. *)
Example resolve_products_count_Apparel :
  resolve_products staff_sees_all shop Apparel (fresh_context Customer) = []
  ∧ resolve_products_count shop Apparel = 1.
Proof. split; vm_compute; reflexivity. Qed.

(* ===================================================================== *)
(** * The category resolver and the request context                      *)
(* ===================================================================== *)

(** X6. [resolve_category] touches nothing of the request but the cache
    attribute: the user of the request and every attribute under another
    name are as before, whether a category is found or not. *)
Theorem resolve_category_frame {User : Type} (db : Database) (id : Z)
    (context : RequestContext User) :
  user (resolve_category db id context).2 = user context
  ∧ ∀ name, name ≠ CONTEXT_CACHE_NAME →
      getattr (resolve_category db id context).2 name = getattr context name.
Proof.
  unfold resolve_category, get_cached_trees.
  destruct (filter_pk category_id id (Category_objects db)) as [|c rest];
    simpl; [done|].
  split; [done|]. intros name Hname. unfold getattr. simpl.
  by apply lookup_insert_ne.
Qed.

Lemma resolve_category_frame_witness :
  getattr (resolve_category shop 2 context_after_Apparel).2 "session" =
    getattr context_after_Apparel "session".
Proof.
  apply (proj2 (resolve_category_frame shop 2 context_after_Apparel)).
  apply (bool_decide_unpack _). vm_compute. reflexivity.
Defined.

(** X7. The last successful resolution wins: when [resolve_category] finds
    a category for an identifier, it returns the same category and leaves
    the same context whether or not another identifier was resolved on the
    request before; the cache of the earlier resolution is replaced, not
    merged.  In particular resolving the same identifier twice is the same
    as resolving it once. *)
Theorem resolve_category_replaces_cache {User : Type} (db : Database)
    (id1 id2 : Z) (context : RequestContext User) :
  (resolve_category db id2 context).1 ≠ None →
  resolve_category db id2 (resolve_category db id1 context).2 =
    resolve_category db id2 context.
Proof.
  unfold resolve_category, get_cached_trees.
  destruct (filter_pk category_id id2 (Category_objects db)) as [|c2 rest2];
    simpl; [done|]. intros _.
  destruct (filter_pk category_id id1 (Category_objects db)) as [|c1 rest1];
    simpl; [done|].
  unfold setattr. simpl. by rewrite insert_insert_eq.
Qed.

Lemma resolve_category_replaces_cache_witness :
  resolve_category shop 2 (resolve_category shop 1 (fresh_context Staff)).2 =
    resolve_category shop 2 (fresh_context Staff).
Proof.
  apply (resolve_category_replaces_cache shop 1 2 (fresh_context Staff)).
  vm_compute. discriminate.
Defined.

(* ===================================================================== *)
(** * The category tree seen by the resolvers                            *)
(* ===================================================================== *)

Section TreeResolvers.
Variable tbl : list Category.

Lemma ancestor_of_trans (c d e : Category) :
  ancestor_of tbl c d → ancestor_of tbl d e → ancestor_of tbl c e.
Proof.
  induction 1 as [c p Hp|c p a Hp Hanc IH]; intros He.
  - by eapply ancestor_step.
  - eapply ancestor_step; eauto.
Qed.

(** Rows of a table with unique keys are equal when their keys are. *)
Lemma unique_key (c d : Category) :
  NoDup (category_id <$> tbl) → c ∈ tbl → d ∈ tbl →
  category_id c = category_id d → c = d.
Proof.
  intros Hnd Hc Hd Hid.
  assert (c ∈ filter_pk category_id (category_id d) tbl) as Hin
    by (by apply elem_of_filter_pk).
  rewrite filter_pk_unique in Hin by done.
  by apply list_elem_of_singleton in Hin.
Qed.

Lemma child_parent_of (c d : Category) :
  NoDup (category_id <$> tbl) → c ∈ tbl →
  d ∈ children_all tbl c → parent_of tbl d c.
Proof.
  intros Hnd Hc Hd. unfold children_all in Hd.
  rewrite list_elem_of_filter in Hd. destruct Hd as [Hpar _].
  exists (category_id c). split; [done|].
  unfold related. by rewrite filter_pk_unique.
Qed.

(** The subtree of a node of a subtree is part of that subtree. *)
Lemma get_descendants_trans (c d e : Category) :
  NoDup (category_id <$> tbl) → acyclic tbl →
  d ∈ get_descendants true tbl c →
  e ∈ get_descendants true tbl d →
  e ∈ get_descendants true tbl c.
Proof.
  intros Hnd Hac Hd He.
  apply (elem_of_get_descendants tbl Hac) in Hd as [Hdin Hd].
  apply (elem_of_get_descendants tbl Hac) in He as [Hein He].
  apply (elem_of_get_descendants tbl Hac). split; [done|].
  assert (category_id e = category_id d → e = d) as Heq
    by (by apply unique_key).
  destruct He as [Hid|(b & Hb & Hid)].
  - rewrite (Heq Hid). done.
  - assert (b = d) as ->
      by (apply unique_key; eauto using ancestor_of_in_tbl).
    destruct Hd as [Hidc|(a & Ha & Hidc)].
    + right. by exists d.
    + right. exists a. split; [|done]. by eapply ancestor_of_trans.
Qed.

Lemma parents_up_same_parent (fuel : nat) (c d : Category) :
  category_parent d = category_parent c →
  parents_up fuel tbl d = parents_up fuel tbl c.
Proof. intros Hpar. destruct fuel; simpl; [done|]. by rewrite Hpar. Qed.

End TreeResolvers.

(** X8. Children and ancestors compose: in a tree with unique keys, on a
    request that carries no ancestor cache, the ancestors resolved for a
    child that [resolve_children] returns for a stored category are the
    ancestors resolved for that category, followed by the category; and
    the category is never among its own children. *)
Theorem resolve_children_ancestors {User : Type} (db : Database)
    (c d : Category) (context : RequestContext User) :
  NoDup (category_id <$> Category_objects db) →
  acyclic (Category_objects db) →
  c ∈ Category_objects db →
  d ∈ resolve_children db c →
  context_ancestors_cache context = None →
  resolve_ancestors db d context =
    (λ ancestors, ancestors ++ [c]) <$> resolve_ancestors db c context
  ∧ d ≠ c.
Proof.
  intros Hnd Hac Hc Hd Hnone.
  pose proof (child_parent_of _ c d Hnd Hc Hd) as Hpar.
  split.
  - unfold resolve_ancestors.
    rewrite !get_ancestors_from_cache_miss by done. simpl.
    by rewrite (get_ancestors_child _ Hac d c Hpar).
  - intros ->. apply (Hac c). by apply ancestor_parent.
Qed.

Lemma resolve_children_ancestors_witness :
  resolve_ancestors shop Crime (fresh_context Customer) =
    (λ ancestors, ancestors ++ [Fiction])
      <$> resolve_ancestors shop Fiction (fresh_context Customer)
  ∧ Crime ≠ Fiction.
Proof.
  apply (resolve_children_ancestors shop Fiction Crime
           (fresh_context Customer)).
  - apply (bool_decide_unpack _). vm_compute. reflexivity.
  - apply shop_acyclic.
  - apply (bool_decide_unpack _). vm_compute. reflexivity.
  - apply (bool_decide_unpack _). vm_compute. reflexivity.
  - vm_compute. reflexivity.
Defined.

(** X9. [resolve_siblings] returns stored categories that have the parent
    key of the category and another key than the category: the category is
    never its own sibling, being a sibling is symmetric among stored
    categories, and the direct traversal gives a sibling the same
    ancestors as the category. *)
Theorem resolve_siblings_share_ancestors (db : Database) (c d : Category) :
  d ∈ resolve_siblings db c →
  d ∈ Category_objects db
  ∧ category_id d ≠ category_id c
  ∧ get_ancestors (Category_objects db) d =
      get_ancestors (Category_objects db) c
  ∧ (c ∈ Category_objects db → c ∈ resolve_siblings db d).
Proof.
  unfold resolve_siblings, get_siblings. rewrite !list_elem_of_filter.
  intros [[Hpar [Hself|Hne]] Hd]; [done|].
  split; [done|]. split; [done|]. split.
  - unfold get_ancestors. by rewrite (parents_up_same_parent _ _ c d).
  - intros Hc. split; [|done]. split; [done|]. by right.
Qed.

Lemma resolve_siblings_share_ancestors_witness :
  Maps ∈ Category_objects shop
  ∧ category_id Maps ≠ category_id Fiction
  ∧ get_ancestors (Category_objects shop) Maps =
      get_ancestors (Category_objects shop) Fiction
  ∧ (Fiction ∈ Category_objects shop → Fiction ∈ resolve_siblings shop Maps).
Proof.
  apply (resolve_siblings_share_ancestors shop Fiction Maps).
  apply (bool_decide_unpack _). vm_compute. reflexivity.
Defined.

(* ===================================================================== *)
(** * The attribute resolver, further                                    *)
(* ===================================================================== *)

Lemma filter_pk_at_most_one {A : Type} (pk : A → Z) (k : Z) (qs : list A) :
  NoDup (pk <$> qs) → length (filter_pk pk k qs) ≤ 1.
Proof.
  intros Hnd. destruct (filter_pk pk k qs) as [|row rest] eqn:Hf;
    [simpl; lia|].
  assert (row ∈ filter_pk pk k qs) as Hrow by (rewrite Hf; left).
  apply elem_of_filter_pk in Hrow as [<- Hrow].
  rewrite filter_pk_unique in Hf by done. by rewrite <- Hf.
Qed.

Lemma objects_get_Raises {A : Type} (pk : A → Z) (k : Z) (qs : list A)
    (e : exn) :
  NoDup (pk <$> qs) →
  objects_get pk k qs = Raises e →
  e = DoesNotExist ∧ ∀ row, row ∈ qs → pk row ≠ k.
Proof.
  intros Hnd. pose proof (filter_pk_at_most_one pk k qs Hnd) as Hlen.
  unfold objects_get.
  destruct (filter_pk pk k qs) as [|r1 [|r2 rest]] eqn:Hf; simpl in Hlen;
    [|done|lia].
  intros [= <-]. split; [done|]. intros row Hrow Hk.
  assert (row ∈ filter_pk pk k qs) as Hin by (by apply elem_of_filter_pk).
  rewrite Hf in Hin. by apply elem_of_nil in Hin.
Qed.

(** The attributes returned for the key of a stored category. *)
Lemma resolve_attributes_subtree (db : Database) (c : Category) :
  valid_pks (category_id <$> Category_objects db) →
  c ∈ Category_objects db →
  ∃ attrs, resolve_attributes db (Some (category_id c)) = Returns attrs
    ∧ ∀ a, a ∈ attrs ↔ attribute_of_subtree db c a.
Proof.
  intros Hpks Hc. eexists. split; [by apply resolve_attributes_found|].
  intros a. rewrite elem_of_distinct, elem_of_filter_product_types.
  unfold attribute_of_subtree, in_subtree. split.
  - intros [Ha (t & Ht & Hassoc)]. split; [done|].
    apply elem_of_list_to_set, list_elem_of_fmap in Ht as (p & -> & Hp).
    rewrite list_elem_of_filter in Hp. destruct Hp as [Hcat Hp].
    apply list_elem_of_fmap in Hcat as (d & Hcat & Hd).
    exists p. eauto.
  - intros [Ha (p & Hp & (d & Hd & Hcat) & Hassoc)]. split; [done|].
    exists (product_type_id p). split; [|done].
    apply elem_of_list_to_set, list_elem_of_fmap. exists p. split; [done|].
    rewrite list_elem_of_filter. split; [|done].
    apply list_elem_of_fmap. by exists d.
Qed.

(** X10. When category keys are unique, [resolve_attributes] raises only
    [DoesNotExist], and exactly when it is given a key that is not zero
    and that no stored category has; for every other argument it returns
    a list. *)
Theorem resolve_attributes_raises_iff (db : Database)
    (category_pk : option Z) (e : exn) :
  NoDup (category_id <$> Category_objects db) →
  resolve_attributes db category_pk = Raises e ↔
  e = DoesNotExist
  ∧ ∃ pk, category_pk = Some pk ∧ pk ≠ 0%Z
          ∧ ∀ c, c ∈ Category_objects db → category_id c ≠ pk.
Proof.
  intros Hnd. split.
  - unfold resolve_attributes, int_truthy.
    destruct category_pk as [pk|]; [|done].
    destruct (decide (pk = 0%Z)) as [->|Hnz]; [done|].
    rewrite (bool_decide_eq_false_2 _ Hnz). simpl.
    destruct (objects_get category_id pk (Category_objects db))
      as [c|e'] eqn:Hget; [done|].
    simpl. intros [= <-].
    apply objects_get_Raises in Hget as [-> Hno]; [|done].
    split; [done|]. by exists pk.
  - intros [-> (pk & -> & Hnz & Hno)]. by apply resolve_attributes_not_found.
Qed.

Lemma resolve_attributes_raises_iff_witness :
  resolve_attributes shop (Some 9%Z) = Raises DoesNotExist.
Proof.
  apply (resolve_attributes_raises_iff shop (Some 9%Z) DoesNotExist).
  - apply (bool_decide_unpack _). vm_compute. reflexivity.
  - split; [reflexivity|]. exists 9%Z. split; [reflexivity|].
    split; [lia|]. intros c Hc. revert c Hc. apply Forall_forall.
    apply (bool_decide_unpack _). vm_compute. reflexivity.
Defined.

(** X11. Whatever its argument, a list that [resolve_attributes] returns
    has no repeated attribute and holds stored attributes only: a category
    filter narrows the list of all attributes, it adds nothing to it. *)
Theorem resolve_attributes_returns_stored (db : Database)
    (category_pk : option Z) (attrs : list ProductAttribute) :
  resolve_attributes db category_pk = Returns attrs →
  NoDup attrs ∧ ∀ a, a ∈ attrs → a ∈ ProductAttribute_objects db.
Proof.
  unfold resolve_attributes, prefetch_related.
  destruct category_pk as [pk|]; [destruct (int_truthy pk)|]; simpl.
  - destruct (objects_get category_id pk (Category_objects db)) as [c|e];
      simpl; [|done].
    intros [= <-]. split; [apply NoDup_distinct|].
    intros a Ha. rewrite elem_of_distinct in Ha.
    by apply elem_of_filter_product_types in Ha as [Ha _].
  - intros [= <-]. split; [apply NoDup_distinct|].
    intros a. by rewrite elem_of_distinct.
  - intros [= <-]. split; [apply NoDup_distinct|].
    intros a. by rewrite elem_of_distinct.
Qed.

Lemma resolve_attributes_returns_stored_witness :
  NoDup [author; cover]
  ∧ ∀ a, a ∈ [author; cover] → a ∈ ProductAttribute_objects shop.
Proof.
  apply (resolve_attributes_returns_stored shop (Some 3%Z) [author; cover]).
  vm_compute. reflexivity.
Defined.

(** X12. The filter follows the tree: in a tree with unique positive keys,
    for a stored category [c] and a node [d] of its subtree,
    [resolve_attributes] returns for both, and every attribute returned
    for [d] is returned for [c]. *)
Theorem resolve_attributes_monotone (db : Database) (c d : Category) :
  valid_pks (category_id <$> Category_objects db) →
  acyclic (Category_objects db) →
  c ∈ Category_objects db →
  d ∈ get_descendants true (Category_objects db) c →
  ∃ attrs_c attrs_d,
    resolve_attributes db (Some (category_id c)) = Returns attrs_c
    ∧ resolve_attributes db (Some (category_id d)) = Returns attrs_d
    ∧ ∀ a, a ∈ attrs_d → a ∈ attrs_c.
Proof.
  intros Hpks Hac Hc Hd.
  assert (d ∈ Category_objects db) as Hdin.
  { unfold get_descendants in Hd. rewrite list_elem_of_filter in Hd. tauto. }
  destruct (resolve_attributes_subtree db c Hpks Hc) as (attrs_c & Hrc & Hcc).
  destruct (resolve_attributes_subtree db d Hpks Hdin)
    as (attrs_d & Hrd & Hcd).
  exists attrs_c, attrs_d. split; [done|]. split; [done|].
  intros a Ha. apply Hcc. apply Hcd in Ha as [Ha (p & Hp & Hsub & Hassoc)].
  split; [done|]. exists p. split; [done|]. split; [|done].
  destruct Hsub as (e & He & Hcat). exists e. split; [|done].
  destruct Hpks as [Hnd _]. by eapply get_descendants_trans.
Qed.

Lemma resolve_attributes_monotone_witness :
  ∃ attrs_c attrs_d,
    resolve_attributes shop (Some (category_id Books)) = Returns attrs_c
    ∧ resolve_attributes shop (Some (category_id Crime)) = Returns attrs_d
    ∧ ∀ a, a ∈ attrs_d → a ∈ attrs_c.
Proof.
  apply (resolve_attributes_monotone shop Books Crime).
  - apply (bool_decide_unpack _). vm_compute. reflexivity.
  - apply shop_acyclic.
  - apply (bool_decide_unpack _). vm_compute. reflexivity.
  - apply (bool_decide_unpack _). vm_compute. reflexivity.
Defined.

(* ===================================================================== *)
(** * Sizes of images                                                    *)
(* ===================================================================== *)

(** X13. The thumbnail resolver never hands an empty size to the
    thumbnail collaborator: whatever the size argument, the result is the
    collaborator's answer for a non-empty size, which is the argument when
    that is a non-empty string and "255x255" otherwise (also for the empty
    string). *)
Theorem resolve_thumbnail_url_size_never_empty (self : Product)
    (size : option string) :
  ∃ s : string,
    s ≠ ""%string
    ∧ (size = Some s
       ∨ (s = "255x255"%string ∧ (size = None ∨ size = Some ""%string)))
    ∧ ∀ product_first_image : Product → string → string,
        resolve_thumbnail_url product_first_image self size =
          product_first_image self s.
Proof.
  destruct size as [s|].
  - destruct (decide (s = ""%string)) as [->|Hs].
    + exists "255x255"%string. split; [done|]. split; [|done].
      right. split; [done|by right].
    + exists s. split; [done|]. split; [by left|].
      intros pfi. unfold resolve_thumbnail_url, str_truthy.
      by rewrite (bool_decide_eq_false_2 _ Hs).
  - exists "255x255"%string. split; [done|]. split; [|done].
    right. split; [done|by left].
Qed.

(** X14. The image resolver asks the cropping collaborator only for a
    non-empty size: without a size, or with the empty string, it returns
    the URL of the stored file as it is; with a non-empty size it returns
    the collaborator's URL for that size. *)
Theorem ProductImage_resolve_url_cases
    (crop_url : ProductImage → string → string) (self : ProductImage)
    (size : option string) :
  (size = None ∨ size = Some ""%string →
   ProductImage_resolve_url crop_url self size = image_url self)
  ∧ (∀ s, size = Some s → s ≠ ""%string →
     ProductImage_resolve_url crop_url self size = crop_url self s).
Proof.
  split.
  - intros [->| ->]; reflexivity.
  - intros s -> Hs. unfold ProductImage_resolve_url, str_truthy.
    by rewrite (bool_decide_eq_false_2 _ Hs).
Qed.

Lemma ProductImage_resolve_url_cases_witness :
  ProductImage_resolve_url (λ i s, (image_url i +:+ "?crop=" +:+ s)%string)
    (mkProductImage 1 10 "/media/novel.jpg") (Some ""%string) =
    "/media/novel.jpg"%string
  ∧ ProductImage_resolve_url (λ i s, (image_url i +:+ "?crop=" +:+ s)%string)
      (mkProductImage 1 10 "/media/novel.jpg") (Some "60x60"%string) =
      "/media/novel.jpg?crop=60x60"%string.
Proof.
  split.
  - apply (proj1 (ProductImage_resolve_url_cases
                    (λ i s, (image_url i +:+ "?crop=" +:+ s)%string)
                    (mkProductImage 1 10 "/media/novel.jpg")
                    (Some ""%string))).
    right. reflexivity.
  - apply (proj2 (ProductImage_resolve_url_cases
                    (λ i s, (image_url i +:+ "?crop=" +:+ s)%string)
                    (mkProductImage 1 10 "/media/novel.jpg")
                    (Some "60x60"%string)) "60x60"%string).
    + reflexivity.
    + apply (bool_decide_unpack _). vm_compute. reflexivity.
Defined.

(* ===================================================================== *)
(** * The payment vocabulary, further                                    *)
(* ===================================================================== *)

(** X15. [OperationType] has exactly six members, with pairwise distinct
    values.  Its values agree with the transaction kinds of the same name
    for capture, void, refund and confirm only: the authorisation is
    "authorize" as an operation and "auth" as a transaction kind, and
    "process_payment" is no transaction kind. *)
Theorem OperationType_closed :
  length OperationType.members = 6
  ∧ NoDup OperationType.members
  ∧ (∀ o, o ∈ OperationType.members)
  ∧ NoDup (OperationType.value <$> OperationType.members)
  ∧ filter (λ v, v ∈ TransactionKind.values)
      (OperationType.value <$> OperationType.members) =
      [TransactionKind.CAPTURE; TransactionKind.VOID;
       TransactionKind.REFUND; TransactionKind.CONFIRM]
  ∧ OperationType.value OperationType.AUTH ≠ TransactionKind.AUTH
  ∧ (TransactionKind.AUTH ∉ OperationType.value <$> OperationType.members).
Proof.
  split; [reflexivity|].
  split; [apply (bool_decide_unpack _); vm_compute; reflexivity|].
  split.
  { intros o. destruct o; unfold OperationType.members;
      repeat (first [by left | right]). }
  split; [apply (bool_decide_unpack _); vm_compute; reflexivity|].
  split; [vm_compute; reflexivity|].
  split; apply (bool_decide_unpack _); vm_compute; reflexivity.
Qed.

(** X16. The stored vocabularies do not overlap and their labels are
    unambiguous: no string is both a transaction kind and a charge status,
    "manual" is neither, and within each [CHOICES] list no label is used
    twice, so a label determines its value. *)
Theorem payment_choices_unambiguous :
  Forall (λ v, v ∉ ChargeStatus.values) TransactionKind.values
  ∧ (CustomPaymentChoices.MANUAL ∉ TransactionKind.values)
  ∧ (CustomPaymentChoices.MANUAL ∉ ChargeStatus.values)
  ∧ NoDup TransactionKind.CHOICES.*2
  ∧ NoDup ChargeStatus.CHOICES.*2
  ∧ CustomPaymentChoices.CHOICES.*1 = [CustomPaymentChoices.MANUAL].
Proof.
  repeat split; try (apply (bool_decide_unpack _); vm_compute; reflexivity).
Qed.
